(** * hono-takibi: the request-parameter classifier and its leaf helpers

    A shallow embedding of three functions of the generator:

    - [isHttpMethod]            (core/validator/is-http-method.ts),
    - [generateZodObjectSchema] (the object-schema expression builder),
    - [generateParamsObject]    (generators/request/params/generate-params-object.ts).

    Strings are Rocq strings and a template literal is a concatenation.
    An object is the list of its own properties, key and value, in the
    order they were created; [Object.entries] enumerates such a list the
    way JavaScript does (array-index keys first).  Objects made by the
    literal [{}] inherit from [Object.prototype], taken to be the standard
    one when a function is called: reading one of its property names on
    such an object finds the inherited value, and assigning to
    [__proto__] reaches the inherited setter, which stores nothing for a
    string.  Where the classifier goes on to write to a built-in object,
    the run leaves the model (see [WritesBuiltin]). *)

From stdpp Require Import gmap strings list fin_maps sorting.
From Stdlib Require Import Ascii NArith.

Local Open Scope string_scope.

(** * Part I: the embedding *)

(** ** The HTTP-method guard (core/validator/is-http-method.ts) *)

(** [method === 'get' || method === 'post' || ...]: strict equality of two
    strings is equality of their contents. *)
Definition isHttpMethod (method : string) : bool :=
  (method =? "get")
  || (method =? "post")
  || (method =? "put")
  || (method =? "delete")
  || (method =? "patch")
  || (method =? "options")
  || (method =? "head").

(** The closed set the guard narrows to (the [HttpMethod] union type). *)
Definition httpMethods : list string :=
  ["get"; "post"; "put"; "delete"; "patch"; "options"; "head"].

(** ASCII upper-casing, to speak about the upper-case variants of a token. *)
Definition upperAscii (c : ascii) : ascii :=
  let n := N_of_ascii c in
  if ((97 <=? n) && (n <=? 122))%N then ascii_of_N (n - 32) else c.

Fixpoint toUpperCase (s : string) : string :=
  match s with
  | EmptyString => EmptyString
  | String c s' => String (upperAscii c) (toUpperCase s')
  end.

(** ** The object-schema expression builder ([generateZodObjectSchema]) *)

(** A [Record<string, string>] argument: the own properties of the object,
    key and value, in the order they were created.  (An object has at most
    one property per key; nothing below depends on it.) *)
Abbreviation PropertyRecord := (list (string * string)).

(** *** The order of [Object.entries]

    [Object.entries] lists the own properties in the order of
    OrdinaryOwnPropertyKeys: first the keys that are array indices, in
    ascending numeric order, then the other string keys in creation order.
    A key is an array index when it is the canonical decimal numeral of an
    integer below 2^32 - 1. *)

Definition digitValue (c : ascii) : option N :=
  let n := N_of_ascii c in
  if ((48 <=? n) && (n <=? 57))%N then Some (n - 48)%N else None.

Fixpoint decimalValue (acc : N) (s : string) : option N :=
  match s with
  | EmptyString => Some acc
  | String c s' =>
      match digitValue c with
      | Some d => decimalValue (10 * acc + d)%N s'
      | None => None
      end
  end.

Definition arrayIndex (key : string) : option N :=
  match key with
  | EmptyString => None
  | String "0" EmptyString => Some 0%N
  | String "0" _ => None
  | _ =>
      match decimalValue 0 key with
      | Some n => if (n <? 4294967295)%N then Some n else None
      | None => None
      end
  end.

Definition isIndexKey (entry : string * string) : Prop :=
  is_Some (arrayIndex entry.1).

Definition indexOf (entry : string * string) : N :=
  default 0%N (arrayIndex entry.1).

Definition indexOrder (a b : string * string) : Prop :=
  (indexOf a ≤ indexOf b)%N.

#[global] Instance indexOrder_dec : RelDecision indexOrder :=
  λ a b, decide (indexOf a ≤ indexOf b)%N.

Definition Object_entries (object : PropertyRecord) : PropertyRecord :=
  merge_sort indexOrder (filter isIndexKey object)
  ++ filter (λ entry, ¬ isIndexKey entry) object.

(** *** The builder *)

(** The template literal [`${key}:${val}`]. *)
Definition propertyText (entry : string * string) : string :=
  let '(key, val) := entry in key +:+ ":" +:+ val.

(** [Array.prototype.join] is [String.concat]: the elements separated by
    the separator, the empty string when there is no element. *)
Definition generateZodObjectSchema (object : PropertyRecord) : string :=
  "z.object({"
  +:+ String.concat "," (propertyText <$> Object_entries object)
  +:+ "})".

(** The text the specification describes: the pairs in insertion order. *)
Definition insertionOrderSchema (object : PropertyRecord) : string :=
  "z.object({" +:+ String.concat "," (propertyText <$> object) +:+ "})".

(** ** The parameter classifier (generate-params-object.ts) *)

(** *** Own properties of an object *)

Section OwnProperties.
Context {V : Type}.

(** The value of the own property [key], if the object has one. *)
Fixpoint getOwn (object : list (string * V)) (key : string) : option V :=
  match object with
  | [] => None
  | (k, v) :: rest => if bool_decide (k = key) then Some v else getOwn rest key
  end.

(** Writing an own data property: an existing property keeps its place and
    takes the new value, a new property comes last. *)
Fixpoint setOwn (object : list (string * V)) (key : string) (value : V)
    : list (string * V) :=
  match object with
  | [] => [(key, value)]
  | (k, v) :: rest =>
      if bool_decide (k = key) then (k, value) :: rest
      else (k, v) :: setOwn rest key value
  end.

End OwnProperties.

(** The property names of the standard [Object.prototype].  On an object
    that has no own property of such a name, a read finds the inherited
    value: a built-in function, or [Object.prototype] itself for
    [__proto__]; all of them are truthy. *)
Definition objectPrototypeNames : list string :=
  ["constructor"; "__defineGetter__"; "__defineSetter__"; "hasOwnProperty";
   "__lookupGetter__"; "__lookupSetter__"; "isPrototypeOf";
   "propertyIsEnumerable"; "toString"; "valueOf"; "__proto__"; "toLocaleString"].

(** [section[key] = value] for a section, an object made by [{}], and a
    string [value].  The key [__proto__] is an accessor inherited from
    [Object.prototype], whose setter ignores a value that is neither an
    object nor null: nothing is stored.  Any other key is written as an own
    property (the inherited properties of [Object.prototype] are writable
    data properties, which an assignment shadows). *)
Definition assignProperty (section : list (string * string)) (key value : string)
    : list (string * string) :=
  if bool_decide (key = "__proto__") then section else setOwn section key value.

(** One element of the [parameters] array, with its four fields as own
    properties.  The field [in] is spelled [in_] here, [in] being a keyword.
    The type of schema nodes is declared in the types module of the
    repository, which this development does not cover: the record is
    generic in it. *)
Record Parameters (Schema : Type) : Type := {
  name : string;
  in_ : string;
  required : bool;
  schema : Schema;
}.

Arguments name {Schema} _.
Arguments in_ {Schema} _.
Arguments required {Schema} _.
Arguments schema {Schema} _.

(** The accumulator: an object whose properties (the sections) are objects
    from parameter names to expression strings. *)
Abbreviation ParamsObject := (list (string * list (string * string))).

(** What a run of the classifier comes to.  [Returns result]: every
    assignment went to the accumulator or to one of its sections, and
    [result] is the object returned.  [WritesBuiltin acc]: with the
    accumulator at [acc], the assignment of line 83 is aimed at a built-in
    object ([Object.prototype] or one of its methods) that [acc[param.in]]
    found by inheritance.  The accumulator is not changed by it; the write
    itself (which some property names make fail) and whatever runs after
    it in a realm whose built-ins were modified are not modelled. *)
Inductive Outcome : Type :=
  | Returns (result : ParamsObject)
  | WritesBuiltin (acc : ParamsObject).

(** The accumulator a run has reached. *)
Definition accumulatorOf (run : Outcome) : ParamsObject :=
  match run with
  | Returns result => result
  | WritesBuiltin acc => acc
  end.


(** The four buckets the documentation of [generateParamsObject] shows. *)
Definition documentedBuckets : list string := ["query"; "params"; "headers"; "body"].

Section Classifier.
Context {Schema : Type}.
(** [schema.type]: the tag of a node, absent on a node that has none. *)
Context (schemaType : Schema → option string).
(** The two imported generators, [generateZodSchema] (generators/zod/
    generate-zod-schema) and [generateZodCoerce] (generators/zod/
    generate-zod-coerce): arbitrary functions of their arguments. *)
Context (generateZodSchema : Schema → string).
Context (generateZodCoerce : string → string → string).

(** [param.required ? '' : '.optional()'] *)
Definition optionalSuffix (param : Parameters Schema) : string :=
  if required param then EmptyString else ".optional()".

(** [generateZodSchema(param.schema)] *)
Definition baseSchema (param : Parameters Schema) : string :=
  generateZodSchema (schema param).

(** [param.in === 'query' &&
     (param.schema.type === 'number' || param.schema.type === 'integer')] *)
Definition coerced (param : Parameters Schema) : bool :=
  bool_decide (in_ param = "query")
  && (bool_decide (schemaType (schema param) = Some "number")
      || bool_decide (schemaType (schema param) = Some "integer")).

(** [coerced ? generateZodCoerce('z.string()', baseSchema) : baseSchema] *)
Definition zodSchema (param : Parameters Schema) : string :=
  if coerced param
  then generateZodCoerce "z.string()" (baseSchema param)
  else baseSchema param.

(** The callback given to [reduce], lines 67 to 84.

    [acc[paramLocation]] is read first among the own properties of the
    accumulator, then on [Object.prototype].
    - An own section is an object, hence truthy: line 83 assigns into it,
      in place.
    - Without own section, a location that is a property name of
      [Object.prototype] finds a truthy built-in: no section is made
      (lines 72 to 74 are skipped) and line 83 is aimed at that built-in.
    - Otherwise the read is undefined: line 73 adds an empty section as
      the last property of the accumulator and line 83 assigns into it. *)
Definition reducer (acc : ParamsObject) (param : Parameters Schema) : Outcome :=
  let paramLocation := in_ param in
  match getOwn acc paramLocation with
  | Some section =>
      Returns
        (setOwn acc paramLocation
           (assignProperty section (name param)
              (zodSchema param +:+ optionalSuffix param)))
  | None =>
      if bool_decide (paramLocation ∈ objectPrototypeNames)
      then WritesBuiltin acc
      else
        Returns
          (setOwn acc paramLocation
             (assignProperty [] (name param)
                (zodSchema param +:+ optionalSuffix param)))
  end.

(** The next turn of [reduce]: the callback is applied to the accumulator
    the turn before returned. *)
Definition turn (run : Outcome) (param : Parameters Schema) : Outcome :=
  match run with
  | Returns acc => reducer acc param
  | WritesBuiltin acc => WritesBuiltin acc
  end.

(** [parameters.reduce(callback, {})] *)
Definition generateParamsObject (parameters : list (Parameters Schema)) : Outcome :=
  foldl turn (Returns []) parameters.

(** The accumulator reached when every assignment goes to a section: the
    callback without the case of a built-in. *)
Definition sectionStep (acc : ParamsObject) (param : Parameters Schema) : ParamsObject :=
  setOwn acc (in_ param)
    (assignProperty (default [] (getOwn acc (in_ param))) (name param)
       (zodSchema param +:+ optionalSuffix param)).
End Classifier.

(** The expression stored under [paramName] in the section [location]. *)
Definition entry (result : ParamsObject) (location paramName : string) : option string :=
  getOwn result location ≫= λ section, getOwn section paramName.

(** All keys of all sections, each with the section it lies in. *)
Definition sectionKeys (result : ParamsObject) : gset (string * string) :=
  list_to_set
    (result ≫= λ '(location, section), (λ property, (location, property.1)) <$> section).

(** The content of a result, its order set aside: the dictionary from
    locations to dictionaries from names to expressions. *)
Definition content (result : ParamsObject) : gmap string (gmap string string) :=
  list_to_map ((λ '(location, section), (location, list_to_map section)) <$> result).

(** The distinct elements of a list, in the order in which they first
    occur: the order in which the keys of an object are created by
    assignments made in that order. *)
Definition firstOccurrences `{EqDecision A} (l : list A) : list A :=
  reverse (remove_dups (reverse l)).

(** The pair a descriptor is stored under. *)
Definition keyOf {Schema : Type} (param : Parameters Schema) : string * string :=
  (in_ param, name param).

(** A descriptor whose location is not a property name of
    [Object.prototype]. *)
Definition ordinaryLocation {Schema : Type} (param : Parameters Schema) : Prop :=
  in_ param ∉ objectPrototypeNames.

(** A descriptor whose name is not [__proto__]. *)
Definition ordinaryName {Schema : Type} (param : Parameters Schema) : Prop :=
  name param ≠ "__proto__".

#[global] Instance ordinaryLocation_dec {Schema : Type} (param : Parameters Schema) :
  Decision (ordinaryLocation param) :=
  decide (in_ param ∉ objectPrototypeNames).

#[global] Instance ordinaryName_dec {Schema : Type} (param : Parameters Schema) :
  Decision (ordinaryName param) :=
  decide (name param ≠ "__proto__").

(** ** Sample collaborators and descriptors

    Everything proved about the classifier holds for arbitrary generators.
    The definitions of this module fix one choice of them, to run the
    classifier on concrete descriptors. *)

Module Sample.

(** Modelled from the spec: the schema node type (section 3, SchemaNode),
    declared in the types module of the repository, which this development
    does not cover.  Only primitive nodes are needed here: a node is its
    [type] tag, as in [{ type: 'string' }]. *)
Record Schema : Type := { type : string }.

(** [schema.type] of a sample node. *)
Definition schemaType (node : Schema) : option string := Some (type node).

(** Modelled from the spec: the schema-node transformer [generateZodSchema]
    (section 4.4), imported from generators/zod/generate-zod-schema, which
    this development does not cover.  Primitive kinds map to their direct
    equivalents in the target language: the string, number and boolean
    validators are spelled as in the documentation of [generateParamsObject]
    and of [generateZodObjectSchema]; the integer validator and the fallback
    are placeholders.  No general result depends on these spellings. *)
Definition generateZodSchema (node : Schema) : string :=
  if type node =? "string" then "z.string()"
  else if type node =? "number" then "z.number()"
  else if type node =? "integer" then "z.number().int()"
  else if type node =? "boolean" then "z.boolean()"
  else "z.any()".

(** Modelled from the spec: the coercion wrapper [generateZodCoerce]
    (section 4.3), imported from generators/zod/generate-zod-coerce, which
    this development does not cover: one expression that parses the source
    representation and then validates against the target.  The spelling is
    a placeholder; no general result depends on it. *)
Definition generateZodCoerce (source target : string) : string :=
  source +:+ ".pipe(" +:+ target +:+ ")".

Definition stringNode : Schema := {| type := "string" |}.
Definition integerNode : Schema := {| type := "integer" |}.

(** The descriptors of scenario A. *)
Definition userId : Parameters Schema :=
  {| name := "userId"; in_ := "path"; required := true; schema := stringNode |}.

Definition page : Parameters Schema :=
  {| name := "page"; in_ := "query"; required := false; schema := integerNode |}.

(** An earlier descriptor for the same name and location as [page]. *)
Definition pageAsString : Parameters Schema :=
  {| name := "page"; in_ := "query"; required := true; schema := stringNode |}.

(** A descriptor whose location is the cookie location of OpenAPI, outside
    the four of the data model. *)
Definition session : Parameters Schema :=
  {| name := "session"; in_ := "cookie"; required := true; schema := stringNode |}.

(** One name at two locations. *)
Definition idInPath : Parameters Schema :=
  {| name := "id"; in_ := "path"; required := true; schema := stringNode |}.

Definition idInQuery : Parameters Schema :=
  {| name := "id"; in_ := "query"; required := false; schema := stringNode |}.

(** Descriptors named [__proto__]: a numeric query parameter, an optional
    header, and a query parameter declared twice. *)
Definition protoCount : Parameters Schema :=
  {| name := "__proto__"; in_ := "query"; required := true; schema := integerNode |}.


Definition protoFirst : Parameters Schema :=
  {| name := "__proto__"; in_ := "query"; required := true; schema := stringNode |}.



(** The classifier run with the sample collaborators. *)
Definition classify : list (Parameters Schema) → Outcome :=
  generateParamsObject schemaType generateZodSchema generateZodCoerce.

End Sample.

(** * Part II: the properties *)

(** ** The HTTP-method guard *)

Example isHttpMethod_get : isHttpMethod "get" = true.
Proof. reflexivity. Qed.

Example isHttpMethod_trace : isHttpMethod "trace" = false.
Proof. reflexivity. Qed.

Lemma isHttpMethod_true_iff (method : string) :
  isHttpMethod method = true ↔ method ∈ httpMethods.
Proof.
  unfold isHttpMethod, httpMethods.
  rewrite !orb_true_iff, !String.eqb_eq.
  rewrite !elem_of_cons, elem_of_nil.
  tauto.
Qed.

Lemma isHttpMethod_false_iff (method : string) :
  isHttpMethod method = false ↔ method ∉ httpMethods.
Proof.
  rewrite <- isHttpMethod_true_iff.
  destruct (isHttpMethod method); split; congruence.
Qed.

Lemma isHttpMethod_upper_false (method : string) :
  method ∈ httpMethods → isHttpMethod (toUpperCase method) = false.
Proof.
  unfold httpMethods.
  rewrite !elem_of_cons, elem_of_nil.
  intros H.
  repeat (destruct H as [-> | H]; [reflexivity |]).
  destruct H.
Qed.

(** C8.  For every string, [isHttpMethod] answers [true] exactly when the
    string is one of the seven lower-case tokens get, post, put, delete,
    patch, options, head.  No case folding takes place: every other string,
    and in particular the upper-case variant of each token (GET, POST, ...),
    is answered [false].  The guard is a total function from strings to
    booleans, with no state and no failure value. *)
Theorem isHttpMethod_exact_lowercase_membership (method : string) :
  (isHttpMethod method = true ↔ method ∈ httpMethods)
  ∧ (isHttpMethod method = false ↔ method ∉ httpMethods)
  ∧ (method ∈ httpMethods → isHttpMethod (toUpperCase method) = false)
  ∧ isHttpMethod "GET" = false.
Proof.
  split; [apply isHttpMethod_true_iff |].
  split; [apply isHttpMethod_false_iff |].
  split; [apply isHttpMethod_upper_false | reflexivity].
Qed.

(** ** The object-schema expression builder *)

#[local] Instance indexOrder_total : Total indexOrder.
Proof. intros a b. unfold indexOrder. lia. Qed.

#[local] Instance indexOrder_trans : Transitive indexOrder.
Proof. intros a b c. unfold indexOrder. lia. Qed.

(** The examples of the function's documentation. *)
Example generateZodObjectSchema_basic :
  generateZodObjectSchema [("name", "z.string()")] = "z.object({name:z.string()})".
Proof. reflexivity. Qed.

Example generateZodObjectSchema_multiple :
  generateZodObjectSchema
    [("name", "z.string()"); ("age", "z.number()"); ("isActive", "z.boolean()")]
  = "z.object({name:z.string(),age:z.number(),isActive:z.boolean()})".
Proof. reflexivity. Qed.

Example generateZodObjectSchema_validated :
  generateZodObjectSchema
    [("email", "z.string().email()"); ("age", "z.number().min(0)")]
  = "z.object({email:z.string().email(),age:z.number().min(0)})".
Proof. reflexivity. Qed.

Example arrayIndex_examples :
  arrayIndex "0" = Some 0%N ∧ arrayIndex "200" = Some 200%N
  ∧ arrayIndex "007" = None ∧ arrayIndex "1.5" = None ∧ arrayIndex "page" = None
  ∧ arrayIndex "4294967294" = Some 4294967294%N ∧ arrayIndex "4294967295" = None.
Proof. repeat split. Qed.

Example Object_entries_status_codes :
  Object_entries [("404", "a"); ("default", "b"); ("200", "c")]
  = [("200", "c"); ("404", "a"); ("default", "b")].
Proof. reflexivity. Qed.

(** [Object.entries] neither drops nor invents a property. *)
Lemma Object_entries_Permutation (object : PropertyRecord) :
  Object_entries object ≡ₚ object.
Proof.
  unfold Object_entries.
  rewrite merge_sort_Permutation.
  apply filter_app_complement.
Qed.

(** The array-index keys come out in ascending numeric order. *)
Lemma Object_entries_index_sorted (object : PropertyRecord) :
  StronglySorted indexOrder (merge_sort indexOrder (filter isIndexKey object)).
Proof. apply StronglySorted_merge_sort; apply _. Qed.

Lemma filter_index_none (object : PropertyRecord) :
  Forall (λ entry, arrayIndex entry.1 = None) object →
  filter isIndexKey object = [] ∧ filter (λ entry, ¬ isIndexKey entry) object = object.
Proof.
  induction 1 as [| e l He _ [IH1 IH2]]; [done |].
  assert (¬ isIndexKey e) as Hn.
  { unfold isIndexKey. rewrite He. by intros [? ?]. }
  rewrite !filter_cons.
  destruct (decide (isIndexKey e)); [done |].
  destruct (decide (¬ isIndexKey e)); [| done].
  by rewrite IH1, IH2.
Qed.

(** Without array-index keys the enumeration is the creation order. *)
Lemma Object_entries_no_index (object : PropertyRecord) :
  Forall (λ entry, arrayIndex entry.1 = None) object →
  Object_entries object = object.
Proof.
  intros H. destruct (filter_index_none object H) as [H1 H2].
  unfold Object_entries. by rewrite H1, H2.
Qed.

(** C9, as stated, fails: a key that is an array index is enumerated before
    the keys created ahead of it.  For the object
    [{ name: 'z.string()', 1: 'z.number()' }] the builder returns
    [z.object({1:z.number(),name:z.string()})], not the pairs in insertion
    order. *)
Lemma generateZodObjectSchema_index_key_moves_first :
  generateZodObjectSchema [("name", "z.string()"); ("1", "z.number()")]
  = "z.object({1:z.number(),name:z.string()})"
  ∧ insertionOrderSchema [("name", "z.string()"); ("1", "z.number()")]
    = "z.object({name:z.string(),1:z.number()})"
  ∧ generateZodObjectSchema [("name", "z.string()"); ("1", "z.number()")]
    ≠ insertionOrderSchema [("name", "z.string()"); ("1", "z.number()")].
Proof. split; [reflexivity |]. split; [reflexivity |]. discriminate. Qed.

(** C9, amended.  For every mapping from property names to expression
    strings, [generateZodObjectSchema] returns the object wrapper applied to
    the brace-delimited, comma-joined sequence of key:value pairs in the
    order of [Object.entries]: the pairs whose key is an array index first,
    in ascending numeric order, then every other pair in insertion order,
    no pair lost or added.  For a mapping without array-index keys this is
    the insertion order; the empty mapping yields [z.object({})]. *)
Theorem generateZodObjectSchema_pairs_in_entries_order (object : PropertyRecord) :
  generateZodObjectSchema object
  = "z.object({" +:+ String.concat "," (propertyText <$> Object_entries object) +:+ "})"
  ∧ (∃ indexed named,
        Object_entries object = (indexed ++ named)%list
        ∧ indexed ≡ₚ filter isIndexKey object
        ∧ StronglySorted indexOrder indexed
        ∧ named = filter (λ entry, ¬ isIndexKey entry) object)
  ∧ Object_entries object ≡ₚ object
  ∧ (Forall (λ entry, arrayIndex entry.1 = None) object →
     generateZodObjectSchema object = insertionOrderSchema object)
  ∧ generateZodObjectSchema [] = "z.object({})".
Proof.
  split; [reflexivity |].
  split.
  { exists (merge_sort indexOrder (filter isIndexKey object)),
           (filter (λ entry, ¬ isIndexKey entry) object).
    split; [reflexivity |].
    split; [apply merge_sort_Permutation |].
    split; [apply Object_entries_index_sorted | reflexivity]. }
  split; [apply Object_entries_Permutation |].
  split; [| reflexivity].
  intros H. unfold generateZodObjectSchema, insertionOrderSchema.
  by rewrite Object_entries_no_index.
Qed.

(** ** Own properties *)

Section OwnPropertyFacts.
Context {V : Type}.
Implicit Types (object : list (string * V)) (key : string) (value : V).

Lemma getOwn_setOwn_eq object key value :
  getOwn (setOwn object key value) key = Some value.
Proof.
  induction object as [| [k v] object IH]; cbn.
  - by rewrite bool_decide_eq_true_2.
  - case_bool_decide as Hk; cbn.
    + by rewrite bool_decide_eq_true_2.
    + by rewrite bool_decide_eq_false_2.
Qed.

Lemma getOwn_setOwn_ne object key other value :
  key ≠ other → getOwn (setOwn object key value) other = getOwn object other.
Proof.
  intros Hne. induction object as [| [k v] object IH]; cbn.
  - by rewrite bool_decide_eq_false_2.
  - case_bool_decide as Hk; cbn.
    + subst k. by rewrite !bool_decide_eq_false_2.
    + by rewrite IH.
Qed.

Lemma getOwn_is_Some object key : is_Some (getOwn object key) ↔ key ∈ object.*1.
Proof.
  induction object as [| [k v] object IH]; cbn.
  - rewrite elem_of_nil. split; [by intros [? ?] | done].
  - rewrite elem_of_cons. case_bool_decide as Hk.
    + split; [by left | eauto].
    + rewrite IH. split; [by right | by intros [? | ?]].
Qed.

Lemma getOwn_None object key : getOwn object key = None ↔ key ∉ object.*1.
Proof.
  rewrite <- getOwn_is_Some, eq_None_not_Some. done.
Qed.

Lemma setOwn_keys object key value :
  (setOwn object key value).*1
  = if bool_decide (key ∈ object.*1) then object.*1 else (object.*1 ++ [key])%list.
Proof.
  induction object as [| [k v] object IH]; cbn.
  - rewrite bool_decide_eq_false_2; [done | apply not_elem_of_nil].
  - destruct (decide (k = key)) as [-> | Hk].
    + rewrite (bool_decide_eq_true_2 (key = key)) by done. cbn.
      rewrite bool_decide_eq_true_2; [done | by left].
    + rewrite (bool_decide_eq_false_2 (k = key)) by done. cbn. rewrite IH.
      destruct (decide (key ∈ object.*1)) as [Hin | Hin].
      * rewrite !bool_decide_eq_true_2; [done | by right | done].
      * rewrite !bool_decide_eq_false_2; [done | | done].
        rewrite elem_of_cons. by intros [? | ?].
Qed.

Lemma NoDup_setOwn object key value :
  NoDup object.*1 → NoDup (setOwn object key value).*1.
Proof.
  intros Hnodup. rewrite setOwn_keys. case_bool_decide as Hin; [done |].
  apply NoDup_app. split; [done |]. split; [| apply NoDup_singleton].
  intros k Hk ->%list_elem_of_singleton. done.
Qed.

Lemma elem_of_getOwn object key value :
  NoDup object.*1 → (key, value) ∈ object → getOwn object key = Some value.
Proof.
  induction object as [| [k v] object IH]; cbn; [by intros _ ?%elem_of_nil |].
  intros [Hnotin Hnodup]%NoDup_cons. rewrite elem_of_cons.
  intros [[= -> ->] | Hin].
  - by rewrite bool_decide_eq_true_2.
  - rewrite bool_decide_eq_false_2; [by apply IH |].
    intros ->. apply Hnotin. apply list_elem_of_fmap. by exists (key, value).
Qed.

Lemma getOwn_elem_of object key value :
  getOwn object key = Some value → (key, value) ∈ object.
Proof.
  induction object as [| [k v] object IH]; cbn; [done |].
  case_bool_decide as Hk.
  - intros [= ->]. subst k. left.
  - intros H. right. by apply IH.
Qed.

(** Reading a key in the dictionary of an object is reading its own
    property. *)
Lemma lookup_list_to_map_getOwn object key :
  (list_to_map object : gmap string V) !! key = getOwn object key.
Proof.
  induction object as [| [k v] object IH]; cbn; [apply lookup_empty |].
  case_bool_decide as Hk.
  - subst k. apply lookup_insert_eq.
  - by rewrite lookup_insert_ne.
Qed.

End OwnPropertyFacts.

(** Assigning to a property of a section, read back. *)
Lemma getOwn_assignProperty (section : list (string * string)) (key other value : string) :
  getOwn (assignProperty section key value) other
  = if bool_decide (key = other ∧ key ≠ "__proto__") then Some value
    else getOwn section other.
Proof.
  unfold assignProperty. case_bool_decide as Hproto.
  - rewrite bool_decide_eq_false_2; [done | by intros [_ ?]].
  - destruct (decide (key = other)) as [-> | Hne].
    + by rewrite bool_decide_eq_true_2, getOwn_setOwn_eq.
    + rewrite bool_decide_eq_false_2 by (by intros [? _]).
      by apply getOwn_setOwn_ne.
Qed.

Lemma NoDup_assignProperty (section : list (string * string)) (key value : string) :
  NoDup section.*1 → NoDup (assignProperty section key value).*1.
Proof.
  unfold assignProperty. case_bool_decide; [done | apply NoDup_setOwn].
Qed.

(** The content of a result, read by location. *)
Lemma lookup_content (result : ParamsObject) (location : string) :
  content result !! location = list_to_map <$> getOwn result location.
Proof.
  unfold content.
  induction result as [| [l section] result IH]; cbn; [apply lookup_empty |].
  case_bool_decide as Hl.
  - subst l. apply lookup_insert_eq.
  - by rewrite lookup_insert_ne.
Qed.

(** Two results have the same content when they have the same sections
    and the same entries. *)
Lemma content_eq (r1 r2 : ParamsObject) :
  (∀ location, is_Some (getOwn r1 location) ↔ is_Some (getOwn r2 location)) →
  (∀ location paramName, entry r1 location paramName = entry r2 location paramName) →
  content r1 = content r2.
Proof.
  intros Hsections Hentries. apply map_eq. intros location.
  rewrite !lookup_content.
  specialize (Hsections location).
  destruct (getOwn r1 location) as [s1 |] eqn:E1,
           (getOwn r2 location) as [s2 |] eqn:E2; cbn.
  - f_equal. apply map_eq. intros paramName.
    rewrite !lookup_list_to_map_getOwn.
    specialize (Hentries location paramName).
    unfold entry in Hentries. by rewrite E1, E2 in Hentries.
  - destruct Hsections as [H _]. destruct H as [? [=]]. eauto.
  - destruct Hsections as [_ H]. destruct H as [? [=]]. eauto.
  - done.
Qed.

(** Membership in [sectionKeys], entry by entry. *)
Lemma elem_of_sectionKeys (result : ParamsObject) (location paramName : string) :
  NoDup result.*1 →
  (location, paramName) ∈ sectionKeys result
  ↔ is_Some (entry result location paramName).
Proof.
  intros Hnodup. unfold sectionKeys, entry.
  rewrite elem_of_list_to_set, list_elem_of_bind. split.
  - intros ([l section] & Hin & Hsection).
    apply list_elem_of_fmap in Hin as (property & [= -> ->] & Hproperty).
    rewrite (elem_of_getOwn _ _ _ Hnodup Hsection). cbn.
    apply getOwn_is_Some, list_elem_of_fmap. eauto.
  - destruct (getOwn result location) as [section |] eqn:E; cbn; [| by intros [? ?]].
    intros Hsome. exists (location, section).
    split; [| by apply getOwn_elem_of].
    apply getOwn_is_Some, list_elem_of_fmap in Hsome as (property & -> & Hproperty).
    apply list_elem_of_fmap. by exists property.
Qed.

(** ** The parameter classifier *)

(** Side conditions on concrete descriptors are decided by evaluation. *)
Ltac by_evaluation := apply (bool_decide_unpack _); exact I.

Section ClassifierFacts.
Context {Schema : Type}.
Context (schemaType : Schema → option string).
Context (generateZodSchema : Schema → string).
Context (generateZodCoerce : string → string → string).

#[local] Abbreviation optionalSuffix := (@optionalSuffix Schema).
#[local] Abbreviation baseSchema := (baseSchema generateZodSchema).
#[local] Abbreviation coerced := (coerced schemaType).
#[local] Abbreviation zodSchema := (zodSchema schemaType generateZodSchema generateZodCoerce).
#[local] Abbreviation reducer := (reducer schemaType generateZodSchema generateZodCoerce).
#[local] Abbreviation turn := (turn schemaType generateZodSchema generateZodCoerce).
#[local] Abbreviation sectionStep :=
  (sectionStep schemaType generateZodSchema generateZodCoerce).
#[local] Abbreviation generateParamsObject :=
  (generateParamsObject schemaType generateZodSchema generateZodCoerce).

(** The string the callback assigns: [`${zodSchema}${optionalSuffix}`]. *)
#[local] Abbreviation emitted param := (zodSchema param +:+ optionalSuffix param).

Implicit Types (acc result : ParamsObject) (param : Parameters Schema).
Implicit Types (parameters : list (Parameters Schema)).
Implicit Types (location paramName : string).

Lemma append_empty_r (s : string) : s +:+ EmptyString = s.
Proof.
  induction s as [| c s IH]; [done |].
  change (String c s +:+ EmptyString) with (String c (s +:+ EmptyString)).
  by rewrite IH.
Qed.

(** *** One turn *)

Lemma reducer_ordinary acc param :
  ordinaryLocation param → reducer acc param = Returns (sectionStep acc param).
Proof.
  unfold ordinaryLocation, reducer, sectionStep. intros Hloc. cbn zeta.
  destruct (getOwn acc (in_ param)); [done |].
  by rewrite bool_decide_eq_false_2.
Qed.

Lemma reducer_Returns acc param result :
  reducer acc param = Returns result → result = sectionStep acc param.
Proof.
  unfold reducer, sectionStep. cbn zeta.
  destruct (getOwn acc (in_ param)); [by intros [= <-] |].
  case_bool_decide; [done | by intros [= <-]].
Qed.

Lemma reducer_WritesBuiltin acc param :
  getOwn acc (in_ param) = None →
  in_ param ∈ objectPrototypeNames →
  reducer acc param = WritesBuiltin acc.
Proof.
  unfold reducer. cbn zeta. intros -> Hin. by rewrite bool_decide_eq_true_2.
Qed.

Lemma accumulatorOf_reducer acc param :
  accumulatorOf (reducer acc param) = acc
  ∨ reducer acc param = Returns (sectionStep acc param).
Proof.
  unfold reducer, sectionStep. cbn zeta.
  destruct (getOwn acc (in_ param)); [by right |].
  case_bool_decide; [by left | by right].
Qed.

Lemma getOwn_sectionStep acc param :
  getOwn (sectionStep acc param) (in_ param)
  = Some (assignProperty (default [] (getOwn acc (in_ param))) (name param)
            (emitted param)).
Proof. apply getOwn_setOwn_eq. Qed.

Lemma getOwn_sectionStep_ne acc param location :
  location ≠ in_ param → getOwn (sectionStep acc param) location = getOwn acc location.
Proof. intros Hne. by apply getOwn_setOwn_ne. Qed.

(** One step, read entry by entry: the entry under the descriptor's own
    (location, name) pair becomes the emitted string, unless the name is
    [__proto__]; every other entry of every section is kept. *)
Lemma entry_sectionStep acc param location paramName :
  entry (sectionStep acc param) location paramName
  = if bool_decide (keyOf param = (location, paramName) ∧ paramName ≠ "__proto__")
    then Some (emitted param)
    else entry acc location paramName.
Proof.
  unfold entry, keyOf.
  destruct (decide (location = in_ param)) as [-> | Hloc].
  - rewrite getOwn_sectionStep. cbn. rewrite getOwn_assignProperty.
    assert (getOwn (default [] (getOwn acc (in_ param))) paramName
            = getOwn acc (in_ param) ≫= λ section, getOwn section paramName) as Hold
      by (by destruct (getOwn acc (in_ param))).
    destruct (decide (name param = paramName)) as [<- | Hname].
    + destruct (decide (name param = "__proto__")) as [Hproto | Hproto].
      * rewrite !bool_decide_eq_false_2; [done | by intros [_ ?] | by intros [_ ?]].
      * by rewrite !bool_decide_eq_true_2.
    + rewrite !bool_decide_eq_false_2; [done | | by intros [? _]].
      intros [[=] _]. done.
  - rewrite getOwn_sectionStep_ne by done.
    rewrite bool_decide_eq_false_2; [done |]. intros [[=] _]. done.
Qed.

(** *** A whole run *)

Lemma foldl_turn_WritesBuiltin parameters acc :
  foldl turn (WritesBuiltin acc) parameters = WritesBuiltin acc.
Proof. induction parameters as [| param parameters IH]; [done | apply IH]. Qed.

Lemma foldl_turn_ordinary parameters :
  Forall ordinaryLocation parameters →
  ∀ acc, foldl turn (Returns acc) parameters = Returns (foldl sectionStep acc parameters).
Proof.
  induction 1 as [| param parameters Hparam _ IH]; intros acc; [done |].
  cbn. rewrite reducer_ordinary by done. apply IH.
Qed.

(** A run on locations that are no property names of [Object.prototype]
    returns, and what it returns is the fold of the section steps. *)
Lemma generateParamsObject_ordinary parameters :
  Forall ordinaryLocation parameters →
  generateParamsObject parameters = Returns (foldl sectionStep [] parameters).
Proof. intros H. by apply foldl_turn_ordinary. Qed.

Lemma generateParamsObject_snoc parameters param :
  generateParamsObject (parameters ++ [param])
  = turn (generateParamsObject parameters) param.
Proof. unfold generateParamsObject. by rewrite foldl_app. Qed.

(** Whatever the run comes to, the accumulator has sections only for
    locations of the list. *)
Lemma accumulatorOf_sections_used parameters location :
  is_Some (getOwn (accumulatorOf (generateParamsObject parameters)) location) →
  location ∈ in_ <$> parameters.
Proof.
  induction parameters as [| param parameters IH] using rev_ind.
  - by intros [? [=]].
  - rewrite generateParamsObject_snoc, fmap_app, elem_of_app.
    destruct (generateParamsObject parameters) as [acc | acc]; cbn [turn];
      [| by left; apply IH].
    destruct (accumulatorOf_reducer acc param) as [-> | ->]; [by left; apply IH |].
    cbn [accumulatorOf].
    destruct (decide (location = in_ param)) as [-> | Hne].
    + intros _. right. cbn. apply list_elem_of_here.
    + rewrite getOwn_sectionStep_ne by done. by left; apply IH.
Qed.

(** The accumulator never has an own section named like a property of
    [Object.prototype]: a run that meets such a location stops at it. *)
Lemma foldl_turn_Returns parameters acc result :
  (∀ key, key ∈ objectPrototypeNames → getOwn acc key = None) →
  foldl turn (Returns acc) parameters = Returns result →
  Forall ordinaryLocation parameters
  ∧ result = foldl sectionStep acc parameters
  ∧ ∀ key, key ∈ objectPrototypeNames → getOwn result key = None.
Proof.
  revert acc. induction parameters as [| param parameters IH]; intros acc Hacc; cbn.
  - intros [= <-]. by repeat split.
  - destruct (decide (in_ param ∈ objectPrototypeNames)) as [Hin | Hin].
    + rewrite reducer_WritesBuiltin by auto.
      by rewrite foldl_turn_WritesBuiltin.
    + rewrite reducer_ordinary by done. intros Hrun.
      apply IH in Hrun as (Hrest & -> & Hresult).
      * repeat split; [by constructor | done].
      * intros key Hkey. rewrite getOwn_sectionStep_ne; [auto |].
        intros ->. done.
Qed.

Lemma generateParamsObject_Returns parameters result :
  generateParamsObject parameters = Returns result
  ↔ Forall ordinaryLocation parameters ∧ result = foldl sectionStep [] parameters.
Proof.
  split.
  - intros H. apply foldl_turn_Returns in H as (? & ? & _); [done | done].
  - intros [H ->]. by apply generateParamsObject_ordinary.
Qed.

(** Every entry of the accumulator after the section steps of a list, in
    closed form. *)
Lemma entry_foldl parameters acc location paramName :
  entry (foldl sectionStep acc parameters) location paramName
  = match last (filter (λ param, keyOf param = (location, paramName)
                                  ∧ paramName ≠ "__proto__") parameters) with
    | Some param => Some (emitted param)
    | None => entry acc location paramName
    end.
Proof.
  induction parameters as [| param parameters IH] using rev_ind; [done |].
  rewrite foldl_app, filter_app. cbn [foldl].
  rewrite entry_sectionStep, filter_cons, filter_nil.
  case_bool_decide as Hkey.
  - rewrite decide_True by done. by rewrite last_snoc.
  - rewrite decide_False by done. by rewrite app_nil_r.
Qed.

(** Steps for other (location, name) pairs do not touch an entry. *)
Lemma entry_foldl_other parameters acc location paramName :
  Forall (λ param, keyOf param ≠ (location, paramName)) parameters →
  entry (foldl sectionStep acc parameters) location paramName
  = entry acc location paramName.
Proof.
  intros H. revert acc.
  induction H as [| param parameters Hne _ IH]; intros acc; [done |].
  cbn [foldl]. rewrite IH, entry_sectionStep.
  rewrite bool_decide_eq_false_2; [done | by intros [? _]].
Qed.

(** Last write wins: the entry of a pair is the string emitted for the last
    descriptor with that pair. *)
Lemma entry_foldl_last earlier param later acc :
  ordinaryName param →
  Forall (λ other, keyOf other ≠ keyOf param) later →
  entry (foldl sectionStep acc (earlier ++ param :: later)) (in_ param) (name param)
  = Some (emitted param).
Proof.
  intros Hname H. rewrite foldl_app. cbn [foldl].
  rewrite (entry_foldl_other later) by done.
  rewrite entry_sectionStep.
  by rewrite bool_decide_eq_true_2.
Qed.

(** A section exists exactly for the locations met so far. *)
Lemma getOwn_foldl_is_Some parameters acc location :
  is_Some (getOwn (foldl sectionStep acc parameters) location)
  ↔ is_Some (getOwn acc location) ∨ location ∈ in_ <$> parameters.
Proof.
  revert acc. induction parameters as [| param parameters IH]; intros acc.
  - cbn [foldl fmap list_fmap]. rewrite elem_of_nil. tauto.
  - cbn [foldl]. rewrite IH, fmap_cons, elem_of_cons.
    destruct (decide (location = in_ param)) as [-> | Hne].
    + rewrite getOwn_sectionStep.
      split; [intros _; right; left; done | intros _; left; eauto].
    + rewrite getOwn_sectionStep_ne by done.
      split; [tauto |]. intros [? | [? | ?]]; [tauto | congruence | tauto].
Qed.

(** An entry exists exactly for the pairs met so far whose name is not
    [__proto__]. *)
Lemma entry_foldl_is_Some parameters acc location paramName :
  is_Some (entry (foldl sectionStep acc parameters) location paramName)
  ↔ is_Some (entry acc location paramName)
    ∨ ((location, paramName) ∈ keyOf <$> parameters ∧ paramName ≠ "__proto__").
Proof.
  revert acc. induction parameters as [| param parameters IH]; intros acc.
  - cbn [foldl fmap list_fmap]. rewrite elem_of_nil. tauto.
  - cbn [foldl]. rewrite IH, entry_sectionStep, fmap_cons, elem_of_cons.
    case_bool_decide as Hkey.
    + destruct Hkey as [Hkey Hname].
      split; [intros _; right; split; [by left | done] | intros _; left; eauto].
    + split; [tauto |]. intros [? | [[? | ?] ?]]; [tauto | | tauto].
      exfalso. apply Hkey. by split.
Qed.

(** The sections and the properties of each section have distinct keys. *)
Lemma NoDup_sectionStep acc param :
  NoDup acc.*1 → NoDup (sectionStep acc param).*1.
Proof. apply NoDup_setOwn. Qed.

Lemma NoDup_foldl_sectionStep parameters acc :
  NoDup acc.*1 → NoDup (foldl sectionStep acc parameters).*1.
Proof.
  revert acc. induction parameters as [| param parameters IH]; intros acc H; [done |].
  cbn [foldl]. by apply IH, NoDup_sectionStep.
Qed.

(** *** The claims *)

(** C1.  The documentation of [generateParamsObject] promises the four
    buckets query, params, headers and body in every result.  The code
    starts from the empty object and makes a section only when a descriptor
    names it, under the descriptor's own [in] value: on a list whose
    locations are no property names of [Object.prototype], a section exists
    exactly for the locations that occur in the list; on any list, a
    section exists only for a location that occurs in it; and the empty
    list yields the empty object, in which none of the four buckets
    exists. *)
Theorem generateParamsObject_sections_are_locations_used :
  (∀ parameters,
      Forall ordinaryLocation parameters →
      ∃ result,
        generateParamsObject parameters = Returns result
        ∧ ∀ location,
            is_Some (getOwn result location) ↔ location ∈ in_ <$> parameters)
  ∧ (∀ parameters location,
        is_Some (getOwn (accumulatorOf (generateParamsObject parameters)) location) →
        location ∈ in_ <$> parameters)
  ∧ generateParamsObject [] = Returns []
  ∧ Forall (λ bucket, getOwn (accumulatorOf (generateParamsObject [])) bucket = None)
      documentedBuckets.
Proof.
  split.
  - intros parameters Hordinary.
    exists (foldl sectionStep [] parameters).
    split; [by apply generateParamsObject_ordinary |].
    intros location. rewrite getOwn_foldl_is_Some. cbn.
    split; [intros [[? [=]] | ?]; done | by right].
  - split; [apply accumulatorOf_sections_used |].
    split; [reflexivity |].
    unfold documentedBuckets. repeat constructor.
Qed.

(** C2.  Scenario A on the code: the required path string parameter userId
    and the optional query integer parameter page.  The two expressions are
    the ones the scenario names (the plain string expression, and the
    coercion-wrapped integer expression followed by the optionality
    modifier), but userId is stored in a section named path, not params, and
    the result has no headers and no body section. *)
Theorem generateParamsObject_scenario_A (stringSchema integerSchema : Schema) :
  schemaType integerSchema = Some "integer" →
  ∃ result,
    generateParamsObject
      [ {| name := "userId"; in_ := "path"; required := true; schema := stringSchema |};
        {| name := "page"; in_ := "query"; required := false; schema := integerSchema |} ]
    = Returns result
    ∧ result
      = [ ("path", [("userId", generateZodSchema stringSchema)]);
          ("query",
           [("page",
             generateZodCoerce "z.string()" (generateZodSchema integerSchema)
             +:+ ".optional()")]) ]
    ∧ getOwn result "params" = None
    ∧ getOwn result "headers" = None
    ∧ getOwn result "body" = None.
Proof.
  intros Htype. eexists. split.
  - apply generateParamsObject_ordinary. by_evaluation.
  - unfold sectionStep, zodSchema, coerced, baseSchema, optionalSuffix.
    cbn [foldl in_ name required schema].
    rewrite Htype, append_empty_r.
    repeat split.
Qed.





(** C7, amended.  On a list whose names are not [__proto__] and whose
    locations are no property names of [Object.prototype], the run returns
    and the keys of all sections, each taken with its section, are exactly
    the distinct ([in], name) pairs of the list: a name is a key of a
    section exactly when some descriptor has that name and that section's
    location as its [in] value.  (So a name used at several locations is a
    key of each of their sections.) *)
Theorem sectionKeys_are_the_input_pairs parameters :
  Forall ordinaryLocation parameters →
  Forall ordinaryName parameters →
  ∃ result,
    generateParamsObject parameters = Returns result
    ∧ sectionKeys result = list_to_set (keyOf <$> parameters)
    ∧ ∀ location paramName,
        is_Some (entry result location paramName)
        ↔ ∃ param, param ∈ parameters ∧ in_ param = location ∧ name param = paramName.
Proof.
  intros Hordinary Hnames.
  exists (foldl sectionStep [] parameters).
  split; [by apply generateParamsObject_ordinary |].
  assert (∀ location paramName,
      is_Some (entry (foldl sectionStep [] parameters) location paramName)
      ↔ (location, paramName) ∈ keyOf <$> parameters) as Hentry.
  { intros location paramName. rewrite entry_foldl_is_Some. split.
    - intros [[? [=]] | [? _]]; done.
    - intros Hin. right. split; [done |].
      apply list_elem_of_fmap in Hin as (param & [= -> ->] & Hparam).
      rewrite Forall_forall in Hnames. by apply Hnames. }
  split.
  - apply set_eq. intros [location paramName].
    rewrite elem_of_sectionKeys by (by apply NoDup_foldl_sectionStep, NoDup_nil).
    by rewrite elem_of_list_to_set.
  - intros location paramName. rewrite Hentry, list_elem_of_fmap.
    unfold keyOf. split.
    + intros (param & [= -> ->] & Hin). by exists param.
    + intros (param & Hin & <- & <-). by exists param.
Qed.

(** C10.  The step that processes a descriptor writes only to the section
    selected by the descriptor's [in] value: every other section, with all
    its entries, is after the step what it was before, for any accumulator
    and in particular for the one reached after a prefix of the list. *)
Theorem reducer_frames_other_sections processed param location :
  location ≠ in_ param →
  (∀ acc, getOwn (accumulatorOf (reducer acc param)) location = getOwn acc location)
  ∧ getOwn (accumulatorOf (generateParamsObject (processed ++ [param]))) location
    = getOwn (accumulatorOf (generateParamsObject processed)) location.
Proof.
  intros Hne.
  assert (∀ acc, getOwn (accumulatorOf (reducer acc param)) location
                 = getOwn acc location) as Hstep.
  { intros acc. destruct (accumulatorOf_reducer acc param) as [-> | ->]; [done |].
    by apply getOwn_sectionStep_ne. }
  split; [exact Hstep |].
  rewrite generateParamsObject_snoc.
  destruct (generateParamsObject processed) as [acc | acc]; [apply Hstep | done].
Qed.

End ClassifierFacts.

(** ** The classifier on the sample descriptors *)

Example classify_proto_name :
  Sample.classify [Sample.protoCount] = Returns [("query", [])].
Proof. reflexivity. Qed.

(** Scenario A with the sample collaborators. *)
Lemma generateParamsObject_scenario_A_sample :
  Sample.schemaType Sample.integerNode = Some "integer"
  ∧ ∃ result,
      Sample.classify [Sample.userId; Sample.page] = Returns result
      ∧ result
        = [ ("path", [("userId", "z.string()")]);
            ("query", [("page", "z.string().pipe(z.number().int()).optional()")]) ]
      ∧ getOwn result "params" = None
      ∧ getOwn result "headers" = None
      ∧ getOwn result "body" = None.
Proof.
  split; [reflexivity |].
  apply (generateParamsObject_scenario_A
           Sample.schemaType Sample.generateZodSchema Sample.generateZodCoerce
           Sample.stringNode Sample.integerNode).
  reflexivity.
Defined.









(** C7, as stated, fails in its second half: a name used at two locations
    is a key of two sections.  With an id in the path and an id in the query
    string, both the path section and the query section have the key id. *)
Lemma same_name_in_two_sections :
  Sample.classify [Sample.idInPath; Sample.idInQuery]
  = Returns [ ("path", [("id", "z.string()")]);
              ("query", [("id", "z.string().optional()")]) ]
  ∧ entry [ ("path", [("id", "z.string()")]);
            ("query", [("id", "z.string().optional()")]) ] "path" "id"
    = Some "z.string()"
  ∧ entry [ ("path", [("id", "z.string()")]);
            ("query", [("id", "z.string().optional()")]) ] "query" "id"
    = Some "z.string().optional()"
  ∧ "path" ≠ "query".
Proof. split; [reflexivity |]. split; [reflexivity |]. split; [reflexivity | discriminate]. Qed.

(** The id in the path and the id in the query string. *)
Lemma sectionKeys_are_the_input_pairs_sample :
  Forall ordinaryLocation [Sample.idInPath; Sample.idInQuery]
  ∧ Forall ordinaryName [Sample.idInPath; Sample.idInQuery]
  ∧ ∃ result,
      Sample.classify [Sample.idInPath; Sample.idInQuery] = Returns result
      ∧ sectionKeys result = list_to_set (keyOf <$> [Sample.idInPath; Sample.idInQuery])
      ∧ ∀ location paramName,
          is_Some (entry result location paramName)
          ↔ ∃ param,
              param ∈ [Sample.idInPath; Sample.idInQuery]
              ∧ in_ param = location ∧ name param = paramName.
Proof.
  assert (Forall ordinaryLocation [Sample.idInPath; Sample.idInQuery]) as Hordinary
    by by_evaluation.
  assert (Forall ordinaryName [Sample.idInPath; Sample.idInQuery]) as Hnames
    by by_evaluation.
  split; [exact Hordinary |]. split; [exact Hnames |].
  exact (sectionKeys_are_the_input_pairs
           Sample.schemaType Sample.generateZodSchema Sample.generateZodCoerce
           [Sample.idInPath; Sample.idInQuery] Hordinary Hnames).
Defined.

(** Processing the query descriptor page leaves the path section alone. *)
Lemma reducer_frames_other_sections_sample :
  "path" ≠ in_ Sample.page
  ∧ (∀ acc,
        getOwn
          (accumulatorOf
             (reducer Sample.schemaType Sample.generateZodSchema Sample.generateZodCoerce
                acc Sample.page)) "path"
        = getOwn acc "path")
  ∧ getOwn (accumulatorOf (Sample.classify ([Sample.userId] ++ [Sample.page]))) "path"
    = getOwn (accumulatorOf (Sample.classify [Sample.userId])) "path".
Proof.
  assert ("path" ≠ in_ Sample.page) as Hne by discriminate.
  split; [exact Hne |].
  exact (reducer_frames_other_sections
           Sample.schemaType Sample.generateZodSchema Sample.generateZodCoerce
           [Sample.userId] Sample.page "path" Hne).
Defined.

(** ** Laws of the classifier *)

Lemma size_list_to_set_remove_dups `{Countable A} (l : list A) :
  size (list_to_set (C := gset A) l) = length (remove_dups l).
Proof.
  rewrite <- (size_list_to_set (C := gset A) (remove_dups l)) by apply NoDup_remove_dups.
  f_equal. apply set_eq. intros x.
  by rewrite !elem_of_list_to_set, elem_of_remove_dups.
Qed.

Lemma length_remove_dups_le `{EqDecision A} (l : list A) :
  (length (remove_dups l) ≤ length l)%nat.
Proof.
  induction l as [| x l IH]; cbn; [done |].
  destruct (decide_rel elem_of x l); cbn; lia.
Qed.

Lemma elem_of_firstOccurrences `{EqDecision A} (l : list A) (x : A) :
  x ∈ firstOccurrences l ↔ x ∈ l.
Proof.
  unfold firstOccurrences. by rewrite elem_of_reverse, elem_of_remove_dups, elem_of_reverse.
Qed.

Lemma firstOccurrences_snoc `{EqDecision A} (l : list A) (x : A) :
  firstOccurrences (l ++ [x])
  = if bool_decide (x ∈ l) then firstOccurrences l else (firstOccurrences l ++ [x])%list.
Proof.
  unfold firstOccurrences. rewrite reverse_snoc. cbn [remove_dups].
  destruct (decide_rel elem_of x (reverse l)) as [Hin | Hin];
    rewrite elem_of_reverse in Hin.
  - by rewrite bool_decide_eq_true_2.
  - rewrite bool_decide_eq_false_2 by done. by rewrite reverse_cons.
Qed.

(** The content of a result that merges two others, the second taking
    precedence. *)
Lemma content_merge (result first second : ParamsObject) :
  (∀ location,
      is_Some (getOwn result location)
      ↔ is_Some (getOwn first location) ∨ is_Some (getOwn second location)) →
  (∀ location paramName,
      entry result location paramName
      = match entry second location paramName with
        | Some expression => Some expression
        | None => entry first location paramName
        end) →
  content result
  = union_with (λ before after, Some (after ∪ before)) (content first) (content second).
Proof.
  intros Hsections Hentries. apply map_eq. intros location.
  rewrite lookup_union_with, !lookup_content.
  specialize (Hsections location).
  assert (∀ paramName,
             getOwn result location ≫= (λ section, getOwn section paramName)
             = match getOwn second location ≫= (λ section, getOwn section paramName) with
               | Some expression => Some expression
               | None => getOwn first location ≫= (λ section, getOwn section paramName)
               end) as Hloc
    by (intros paramName; apply Hentries).
  assert (¬ is_Some (@None (list (string * string)))) as Hnone by (by intros [? ?]).
  destruct (getOwn result location) as [s |],
           (getOwn first location) as [s1 |],
           (getOwn second location) as [s2 |]; cbn in *;
    try (exfalso; destruct Hsections as [H1 H2]; eauto; fail);
    try (exfalso; destruct Hsections as [H1 H2];
         destruct H1 as [? | ?]; eauto; fail);
    try done.
  - f_equal. apply map_eq. intros paramName.
    rewrite lookup_union, !lookup_list_to_map_getOwn, Hloc.
    by destruct (getOwn s2 paramName), (getOwn s1 paramName).
  - f_equal. apply map_eq. intros paramName.
    rewrite !lookup_list_to_map_getOwn, Hloc. done.
  - f_equal. apply map_eq. intros paramName.
    rewrite !lookup_list_to_map_getOwn, Hloc.
    by destruct (getOwn s2 paramName).
Qed.

Section ClassifierLaws.
Context {Schema : Type}.
Context (schemaType : Schema → option string).
Context (generateZodSchema : Schema → string).
Context (generateZodCoerce : string → string → string).

#[local] Abbreviation optionalSuffix := (@optionalSuffix Schema).
#[local] Abbreviation zodSchema := (zodSchema schemaType generateZodSchema generateZodCoerce).
#[local] Abbreviation reducer := (reducer schemaType generateZodSchema generateZodCoerce).
#[local] Abbreviation turn := (turn schemaType generateZodSchema generateZodCoerce).
#[local] Abbreviation sectionStep :=
  (sectionStep schemaType generateZodSchema generateZodCoerce).
#[local] Abbreviation generateParamsObject :=
  (generateParamsObject schemaType generateZodSchema generateZodCoerce).
#[local] Abbreviation emitted param := (zodSchema param +:+ optionalSuffix param).

Implicit Types (acc result : ParamsObject) (param : Parameters Schema).
Implicit Types (parameters : list (Parameters Schema)).
Implicit Types (location paramName : string).

(** X1.  A section of a result is empty exactly when every descriptor of
    its location is named [__proto__]: with any other name the section
    holds at least one entry. *)
Theorem empty_section_iff_only_proto_names parameters result location section :
  generateParamsObject parameters = Returns result →
  getOwn result location = Some section →
  section = []
  ↔ ∀ param, param ∈ parameters → in_ param = location → name param = "__proto__".
Proof.
  intros [_ ->]%generateParamsObject_Returns Hsection.
  assert (∀ paramName,
             is_Some (getOwn section paramName)
             ↔ (location, paramName) ∈ keyOf <$> parameters ∧ paramName ≠ "__proto__")
    as Hkeys.
  { intros paramName.
    pose proof (entry_foldl_is_Some schemaType generateZodSchema generateZodCoerce
                  parameters [] location paramName) as H.
    unfold entry in H. rewrite Hsection in H. cbn in H. rewrite H.
    split; [intros [[? [=]] | ?]; done | by right]. }
  split.
  - intros -> param Hparam Hin.
    destruct (decide (name param = "__proto__")) as [| Hname]; [done |].
    assert (is_Some (getOwn ([] : list (string * string)) (name param))) as [? [=]].
    apply Hkeys. split; [| done].
    apply list_elem_of_fmap. exists param. by rewrite <- Hin.
  - intros Hall. destruct section as [| [key value] section]; [done |].
    assert (is_Some (getOwn ((key, value) :: section) key)) as Hkey.
    { cbn. rewrite bool_decide_eq_true_2 by done. eauto. }
    apply Hkeys in Hkey as [Hin Hname].
    apply list_elem_of_fmap in Hin as (param & [= -> ->] & Hparam).
    by specialize (Hall param Hparam eq_refl).
Qed.

(** X2.  Each entry in closed form, on a list whose locations are no
    property names of [Object.prototype]: the entry under a name in a
    section is the string emitted for the last descriptor of the list that
    has this name and this location; there is no entry when no descriptor
    has them, and none under the name [__proto__]. *)
Theorem generateParamsObject_entry_is_last_emitted parameters :
  Forall ordinaryLocation parameters →
  ∃ result,
    generateParamsObject parameters = Returns result
    ∧ ∀ location paramName,
        entry result location paramName
        = (λ param, zodSchema param +:+ optionalSuffix param)
            <$> last (filter (λ param, keyOf param = (location, paramName)
                                       ∧ paramName ≠ "__proto__") parameters).
Proof.
  intros Hordinary. exists (foldl sectionStep [] parameters).
  split; [by apply generateParamsObject_ordinary |].
  intros location paramName. rewrite entry_foldl.
  by destruct (last _).
Qed.

(** X3.  Classifying a concatenation merges the two results as
    dictionaries: the sections of both, and within a section the entries of
    both, an entry of the second list taking precedence over one of the
    first under the same name. *)
Theorem generateParamsObject_app_merges earlier later :
  Forall ordinaryLocation (earlier ++ later) →
  ∃ result before after,
    generateParamsObject (earlier ++ later) = Returns result
    ∧ generateParamsObject earlier = Returns before
    ∧ generateParamsObject later = Returns after
    ∧ content result
      = union_with (λ first second, Some (second ∪ first))
          (content before) (content after).
Proof.
  intros Hordinary.
  pose proof Hordinary as [Hearlier Hlater]%Forall_app.
  exists (foldl sectionStep [] (earlier ++ later)),
         (foldl sectionStep [] earlier), (foldl sectionStep [] later).
  split; [by apply generateParamsObject_ordinary |].
  split; [by apply generateParamsObject_ordinary |].
  split; [by apply generateParamsObject_ordinary |].
  apply content_merge.
  - intros location. rewrite !getOwn_foldl_is_Some, fmap_app, elem_of_app. cbn.
    split.
    + intros [[? [=]] | [? | ?]]; [left | right]; by right.
    + intros [[[? [=]] | ?] | [[? [=]] | ?]]; right; [by left | by right].
  - intros location paramName.
    rewrite foldl_app, !entry_foldl.
    by destruct (last _).
Qed.

(** With distinct (location, name) pairs, an entry is the string emitted
    for the one descriptor that has the pair. *)
Lemma entry_foldl_NoDup parameters location paramName expression :
  NoDup (keyOf <$> parameters) →
  entry (foldl sectionStep [] parameters) location paramName = Some expression
  ↔ ∃ param,
      param ∈ parameters ∧ keyOf param = (location, paramName)
      ∧ paramName ≠ "__proto__" ∧ expression = emitted param.
Proof.
  intros Hnodup.
  assert (∀ param,
             param ∈ parameters → name param ≠ "__proto__" →
             entry (foldl sectionStep [] parameters) (in_ param) (name param)
             = Some (emitted param)) as Hlast.
  { intros param Hparam Hname.
    apply list_elem_of_split in Hparam as (l1 & l2 & ->).
    apply entry_foldl_last; [done |].
    rewrite fmap_app, fmap_cons in Hnodup.
    apply NoDup_app in Hnodup as (_ & _ & [Hnotin _]%NoDup_cons).
    apply Forall_forall. intros other Hother Heq. apply Hnotin.
    apply list_elem_of_fmap. by exists other. }
  split.
  - intros Hentry.
    assert (is_Some (entry (foldl sectionStep [] parameters) location paramName)) as H
      by eauto.
    apply entry_foldl_is_Some in H as [[? [=]] | [Hin Hname]].
    apply list_elem_of_fmap in Hin as (param & [= -> ->] & Hparam).
    exists param. repeat split; [done | done |].
    rewrite Hlast in Hentry by done. congruence.
  - intros (param & Hparam & [= <- <-] & Hname & ->). by apply Hlast.
Qed.

(** X4.  When no two descriptors of a list share both name and location,
    the order of the list does not matter for the content of the result:
    every reordering is classified into the same sections with the same
    entries.  (The order of the sections and of their keys follows the
    list.) *)
Theorem generateParamsObject_order_irrelevant parameters reordered :
  NoDup (keyOf <$> parameters) →
  parameters ≡ₚ reordered →
  Forall ordinaryLocation parameters →
  ∃ result result',
    generateParamsObject parameters = Returns result
    ∧ generateParamsObject reordered = Returns result'
    ∧ content result = content result'.
Proof.
  intros Hnodup Hperm Hordinary.
  exists (foldl sectionStep [] parameters), (foldl sectionStep [] reordered).
  split; [by apply generateParamsObject_ordinary |].
  split; [apply generateParamsObject_ordinary; by rewrite <- Hperm |].
  apply content_eq.
  - intros location. rewrite !getOwn_foldl_is_Some. by rewrite Hperm.
  - intros location paramName. apply option_eq. intros expression.
    rewrite !entry_foldl_NoDup by (by rewrite <- ?Hperm).
    by setoid_rewrite Hperm.
Qed.


(** The keys of a result and of each of its sections, in their order. *)
Lemma keys_foldl_sectionStep parameters :
  (foldl sectionStep [] parameters).*1 = firstOccurrences (in_ <$> parameters)
  ∧ ∀ location,
      (default [] (getOwn (foldl sectionStep [] parameters) location)).*1
      = firstOccurrences
          (name <$> filter (λ param, in_ param = location ∧ name param ≠ "__proto__")
                      parameters).
Proof.
  induction parameters as [| param parameters [IHsections IHkeys]] using rev_ind;
    [done |].
  rewrite foldl_app. cbn [foldl]. split.
  - rewrite fmap_app. cbn [fmap list_fmap]. rewrite firstOccurrences_snoc.
    unfold sectionStep at 1. rewrite setOwn_keys, IHsections.
    by rewrite (bool_decide_ext _ _ (elem_of_firstOccurrences _ _)).
  - intros location. rewrite filter_app, fmap_app.
    destruct (decide (location = in_ param)) as [-> | Hloc].
    + rewrite getOwn_sectionStep. cbn [from_option id].
      specialize (IHkeys (in_ param)).
      unfold assignProperty. case_bool_decide as Hproto.
      * rewrite filter_cons_False by (by intros [_ ?]).
        rewrite filter_nil. cbn [fmap list_fmap]. by rewrite app_nil_r.
      * rewrite filter_cons_True by done.
        rewrite filter_nil. cbn [fmap list_fmap]. rewrite firstOccurrences_snoc.
        rewrite setOwn_keys, IHkeys.
        by rewrite (bool_decide_ext _ _ (elem_of_firstOccurrences _ _)).
    + rewrite getOwn_sectionStep_ne by done.
      rewrite filter_cons_False by (by intros [? _]).
      rewrite filter_nil. cbn [fmap list_fmap]. by rewrite app_nil_r.
Qed.

(** X6.  Sizes of a result on a list whose locations are no property names
    of [Object.prototype]: it has as many sections as the list has distinct
    locations, and its sections hold together as many entries as there are
    distinct (location, name) pairs among the descriptors not named
    [__proto__]: at most one entry per descriptor, and exactly one when the
    pairs are distinct and no descriptor is named [__proto__]. *)
Theorem generateParamsObject_sizes parameters :
  Forall ordinaryLocation parameters →
  ∃ result,
    generateParamsObject parameters = Returns result
    ∧ length result = length (remove_dups (in_ <$> parameters))
    ∧ size (sectionKeys result)
      = length (remove_dups (keyOf <$> filter ordinaryName parameters))
    ∧ (size (sectionKeys result) ≤ length parameters)%nat
    ∧ (NoDup (keyOf <$> parameters) → Forall ordinaryName parameters →
       size (sectionKeys result) = length parameters).
Proof.
  intros Hordinary. exists (foldl sectionStep [] parameters).
  split; [by apply generateParamsObject_ordinary |].
  assert (NoDup (foldl sectionStep [] parameters).*1) as Hnodup
    by (by apply NoDup_foldl_sectionStep, NoDup_nil).
  assert (sectionKeys (foldl sectionStep [] parameters)
          = list_to_set (keyOf <$> filter ordinaryName parameters)) as Hkeys.
  { apply set_eq. intros [location paramName].
    rewrite elem_of_sectionKeys, entry_foldl_is_Some, elem_of_list_to_set by done.
    rewrite !list_elem_of_fmap. split.
    - intros [[? [=]] | [(param & [= -> ->] & Hparam) Hname]].
      exists param. split; [done |]. by apply list_elem_of_filter.
    - intros (param & [= -> ->] & [Hname Hparam]%list_elem_of_filter).
      right. split; [by exists param | done]. }
  assert (size (sectionKeys (foldl sectionStep [] parameters))
          = length (remove_dups (keyOf <$> filter ordinaryName parameters))) as Hsize
    by (by rewrite Hkeys, size_list_to_set_remove_dups).
  split; [| split; [done | split]].
  - rewrite <- (length_fmap fst), <- (size_list_to_set (C := gset string)) by done.
    rewrite <- size_list_to_set_remove_dups. f_equal. apply set_eq. intros location.
    rewrite !elem_of_list_to_set, <- getOwn_is_Some, getOwn_foldl_is_Some.
    split; [by intros [[? [=]] | ?] | by right].
  - rewrite Hsize. etrans; [apply length_remove_dups_le |].
    rewrite length_fmap. apply length_filter.
  - intros Hdistinct Hnames. rewrite Hsize.
    assert (filter ordinaryName parameters = parameters) as ->.
    { clear -Hnames. induction Hnames as [| param parameters Hparam _ IH]; [done |].
      by rewrite filter_cons_True, IH. }
    rewrite <- (length_fmap keyOf parameters). f_equal.
    clear -Hdistinct. induction Hdistinct as [| key keys Hkey _ IH]; [done |].
    cbn. destruct (decide_rel elem_of key keys); [done | by rewrite IH].
Qed.


(** X13.  Order of the result, on a list whose locations are no property
    names of [Object.prototype]: the sections stand in the order in which
    their locations first occur in the list, and the keys of a section in
    the order in which their names first occur among the descriptors of
    that location (those named [__proto__] left out); a later descriptor
    with the same name overwrites the expression in place. *)
Theorem generateParamsObject_creation_order parameters :
  Forall ordinaryLocation parameters →
  ∃ result,
    generateParamsObject parameters = Returns result
    ∧ result.*1 = firstOccurrences (in_ <$> parameters)
    ∧ ∀ location section,
        getOwn result location = Some section →
        section.*1
        = firstOccurrences
            (name <$> filter (λ param, in_ param = location ∧ name param ≠ "__proto__")
                        parameters).
Proof.
  intros Hordinary. exists (foldl sectionStep [] parameters).
  split; [by apply generateParamsObject_ordinary |].
  destruct (keys_foldl_sectionStep parameters) as [Hsections Hkeys].
  split; [done |].
  intros location section Hsection.
  specialize (Hkeys location). by rewrite Hsection in Hkeys.
Qed.

End ClassifierLaws.

(** ** The laws on the sample descriptors *)

(** A query parameter named [__proto__] alone: its section is made and
    stays empty. *)
Lemma empty_section_iff_only_proto_names_sample :
  Sample.classify [Sample.protoFirst] = Returns [("query", [])]
  ∧ getOwn [("query", ([] : list (string * string)))] "query" = Some []
  ∧ (([] : list (string * string)) = []
     ↔ ∀ param,
         param ∈ [Sample.protoFirst] → in_ param = "query" → name param = "__proto__").
Proof.
  split; [reflexivity |]. split; [reflexivity |].
  exact (empty_section_iff_only_proto_names
           Sample.schemaType Sample.generateZodSchema Sample.generateZodCoerce
           [Sample.protoFirst] [("query", [])] "query" [] eq_refl eq_refl).
Defined.

(** The page parameter given twice, as a string and then as an integer. *)
Lemma generateParamsObject_entry_is_last_emitted_sample :
  Forall ordinaryLocation [Sample.pageAsString; Sample.userId; Sample.page]
  ∧ ∃ result,
      Sample.classify [Sample.pageAsString; Sample.userId; Sample.page] = Returns result
      ∧ entry result "query" "page"
        = Some "z.string().pipe(z.number().int()).optional()".
Proof.
  assert (Forall ordinaryLocation [Sample.pageAsString; Sample.userId; Sample.page])
    as Hordinary by by_evaluation.
  split; [exact Hordinary |].
  destruct (generateParamsObject_entry_is_last_emitted
              Sample.schemaType Sample.generateZodSchema Sample.generateZodCoerce
              [Sample.pageAsString; Sample.userId; Sample.page] Hordinary)
    as (result & Hrun & Hentry).
  exists result. split; [exact Hrun |].
  rewrite Hentry. reflexivity.
Defined.

(** Scenario A, cut between its two descriptors. *)
Lemma generateParamsObject_app_merges_sample :
  Forall ordinaryLocation ([Sample.userId] ++ [Sample.page])
  ∧ ∃ result before after,
      Sample.classify ([Sample.userId] ++ [Sample.page]) = Returns result
      ∧ Sample.classify [Sample.userId] = Returns before
      ∧ Sample.classify [Sample.page] = Returns after
      ∧ content result
        = union_with (λ first second, Some (second ∪ first))
            (content before) (content after).
Proof.
  assert (Forall ordinaryLocation ([Sample.userId] ++ [Sample.page])) as Hordinary
    by by_evaluation.
  split; [exact Hordinary |].
  exact (generateParamsObject_app_merges
           Sample.schemaType Sample.generateZodSchema Sample.generateZodCoerce
           [Sample.userId] [Sample.page] Hordinary).
Defined.

(** Scenario A with its two descriptors exchanged. *)
Lemma generateParamsObject_order_irrelevant_sample :
  NoDup (keyOf <$> [Sample.userId; Sample.page])
  ∧ [Sample.userId; Sample.page] ≡ₚ [Sample.page; Sample.userId]
  ∧ Forall ordinaryLocation [Sample.userId; Sample.page]
  ∧ ∃ result result',
      Sample.classify [Sample.userId; Sample.page] = Returns result
      ∧ Sample.classify [Sample.page; Sample.userId] = Returns result'
      ∧ content result = content result'.
Proof.
  assert (NoDup (keyOf <$> [Sample.userId; Sample.page])) as Hnodup by by_evaluation.
  assert ([Sample.userId; Sample.page] ≡ₚ [Sample.page; Sample.userId]) as Hperm
    by apply perm_swap.
  assert (Forall ordinaryLocation [Sample.userId; Sample.page]) as Hordinary
    by by_evaluation.
  split; [exact Hnodup |]. split; [exact Hperm |]. split; [exact Hordinary |].
  exact (generateParamsObject_order_irrelevant
           Sample.schemaType Sample.generateZodSchema Sample.generateZodCoerce
           [Sample.userId; Sample.page] [Sample.page; Sample.userId]
           Hnodup Hperm Hordinary).
Defined.


(** The shadowed descriptor fixes the place of its section: with it the
    query section is made before the cookie section, without it after. *)
Example shadowed_descriptor_keeps_its_place :
  (accumulatorOf
     (Sample.classify [Sample.pageAsString; Sample.session; Sample.page])).*1
  = ["query"; "cookie"]
  ∧ (accumulatorOf (Sample.classify [Sample.session; Sample.page])).*1
    = ["cookie"; "query"].
Proof. split; reflexivity. Qed.

(** Three descriptors, two of them with the same name and location. *)
Lemma generateParamsObject_sizes_sample :
  Forall ordinaryLocation [Sample.pageAsString; Sample.userId; Sample.page]
  ∧ ∃ result,
      Sample.classify [Sample.pageAsString; Sample.userId; Sample.page] = Returns result
      ∧ length result = 2%nat
      ∧ size (sectionKeys result) = 2%nat.
Proof.
  assert (Forall ordinaryLocation [Sample.pageAsString; Sample.userId; Sample.page])
    as Hordinary by by_evaluation.
  split; [exact Hordinary |].
  destruct (generateParamsObject_sizes
              Sample.schemaType Sample.generateZodSchema Sample.generateZodCoerce
              [Sample.pageAsString; Sample.userId; Sample.page] Hordinary)
    as (result & Hrun & Hsections & Hentries & _).
  exists result. split; [exact Hrun |].
  split; [rewrite Hsections | rewrite Hentries]; reflexivity.
Defined.


(** The query section is made first, by the string-typed page descriptor;
    the integer-typed one overwrites the expression in place. *)
Lemma generateParamsObject_creation_order_sample :
  Forall ordinaryLocation
    [Sample.pageAsString; Sample.idInQuery; Sample.userId; Sample.page]
  ∧ ∃ result,
      Sample.classify [Sample.pageAsString; Sample.idInQuery; Sample.userId; Sample.page]
      = Returns result
      ∧ result.*1 = ["query"; "path"]
      ∧ ∀ section, getOwn result "query" = Some section → section.*1 = ["page"; "id"].
Proof.
  assert (Forall ordinaryLocation
            [Sample.pageAsString; Sample.idInQuery; Sample.userId; Sample.page])
    as Hordinary by by_evaluation.
  split; [exact Hordinary |].
  destruct (generateParamsObject_creation_order
              Sample.schemaType Sample.generateZodSchema Sample.generateZodCoerce
              [Sample.pageAsString; Sample.idInQuery; Sample.userId; Sample.page]
              Hordinary)
    as (result & Hrun & Hsections & Hkeys).
  exists result. split; [exact Hrun |]. split; [rewrite Hsections; reflexivity |].
  intros section Hsection. rewrite (Hkeys "query" section Hsection). reflexivity.
Defined.
(** ** The guard performs no normalisation *)

(** Upper-casing leaves no lower-case ASCII letter. *)
Lemma upperAscii_not_lower (c : ascii) :
  ((97 <=? N_of_ascii (upperAscii c)) && (N_of_ascii (upperAscii c) <=? 122))%N = false.
Proof. destruct c as [[] [] [] [] [] [] [] []]; reflexivity. Qed.

Lemma toUpperCase_head_not_lower (s : string) (c : ascii) (rest : string) :
  toUpperCase s = String c rest →
  ((97 <=? N_of_ascii c) && (N_of_ascii c <=? 122))%N = false.
Proof.
  destruct s as [| a s]; cbn; [discriminate |].
  intros [= <- _]. apply upperAscii_not_lower.
Qed.

(** A string that ends with a space ends with no other character. *)
Lemma append_space_last (s t : string) (c : ascii) :
  s +:+ " " = t +:+ String c EmptyString → c = " "%char.
Proof.
  revert t. induction s as [| a s IH]; intros t.
  - destruct t as [| b [| b' t]]; cbv [String.append]; intros [=]; done.
  - destruct t as [| b t].
    + destruct s; cbv [String.append]; intros [=].
    + change (String a (s +:+ " ") = String b (t +:+ String c EmptyString) → c = " "%char).
      intros [= _ H]. by apply (IH t).
Qed.

(** X7.  The guard normalises nothing: it rejects every upper-cased
    string, every string that starts with a space and every string that
    ends with a space, so a token is recognised only in its exact
    lower-case spelling. *)
Theorem isHttpMethod_rejects_upper_case_and_padding (method : string) :
  isHttpMethod (toUpperCase method) = false
  ∧ isHttpMethod (String " " method) = false
  ∧ isHttpMethod (method +:+ " ") = false.
Proof.
  split; [| split].
  - apply isHttpMethod_false_iff. unfold httpMethods.
    rewrite !elem_of_cons, elem_of_nil.
    intros H.
    repeat (destruct H as [H | H];
            [apply toUpperCase_head_not_lower in H; discriminate H |]).
    destruct H.
  - reflexivity.
  - apply isHttpMethod_false_iff. unfold httpMethods.
    rewrite !elem_of_cons, elem_of_nil.
    intros H.
    destruct H as [H | H]; [by apply (append_space_last _ "ge" "t") in H |].
    destruct H as [H | H]; [by apply (append_space_last _ "pos" "t") in H |].
    destruct H as [H | H]; [by apply (append_space_last _ "pu" "t") in H |].
    destruct H as [H | H]; [by apply (append_space_last _ "delet" "e") in H |].
    destruct H as [H | H]; [by apply (append_space_last _ "patc" "h") in H |].
    destruct H as [H | H]; [by apply (append_space_last _ "option" "s") in H |].
    destruct H as [H | H]; [by apply (append_space_last _ "hea" "d") in H |].
    destruct H.
Qed.

(** ** Laws of the object-schema builder *)

(** *** Array-index keys are canonical numerals *)

Lemma digitValue_lt (c : ascii) (d : N) : digitValue c = Some d → (d < 10)%N.
Proof.
  unfold digitValue.
  destruct ((48 <=? N_of_ascii c) && (N_of_ascii c <=? 57))%N eqn:E; [| done].
  intros [= <-]. apply andb_true_iff in E as [_ E]. apply N.leb_le in E. lia.
Qed.

Lemma digitValue_inj (c1 c2 : ascii) (d : N) :
  digitValue c1 = Some d → digitValue c2 = Some d → c1 = c2.
Proof.
  unfold digitValue.
  destruct ((48 <=? N_of_ascii c1) && (N_of_ascii c1 <=? 57))%N eqn:E1; [| done].
  destruct ((48 <=? N_of_ascii c2) && (N_of_ascii c2 <=? 57))%N eqn:E2; [| done].
  intros [= <-] [= H].
  apply andb_true_iff in E1 as [E1 _]. apply N.leb_le in E1.
  apply andb_true_iff in E2 as [E2 _]. apply N.leb_le in E2.
  rewrite <- (ascii_N_embedding c1), <- (ascii_N_embedding c2).
  f_equal. lia.
Qed.

Lemma digitValue_zero (c : ascii) : digitValue c = Some 0%N → c = "0"%char.
Proof. intros H. by apply (digitValue_inj c "0"%char 0%N). Qed.

(** The value read from a numeral lies in the window its accumulator and
    its length leave. *)
Lemma decimalValue_bounds (s : string) (acc v : N) :
  decimalValue acc s = Some v →
  (acc * 10 ^ N.of_nat (String.length s) ≤ v
   ∧ v < (acc + 1) * 10 ^ N.of_nat (String.length s))%N.
Proof.
  revert acc. induction s as [| c s IH]; intros acc; cbn [decimalValue String.length].
  - intros [= <-]. cbn. lia.
  - destruct (digitValue c) as [d |] eqn:Ed; [| done].
    intros H. apply IH in H. apply digitValue_lt in Ed.
    rewrite Nat2N.inj_succ, N.pow_succ_r'.
    nia.
Qed.

Lemma decimalValue_inj (s1 s2 : string) (acc1 acc2 v : N) :
  String.length s1 = String.length s2 →
  decimalValue acc1 s1 = Some v →
  decimalValue acc2 s2 = Some v →
  acc1 = acc2 ∧ s1 = s2.
Proof.
  revert s2 acc1 acc2.
  induction s1 as [| c1 s1 IH]; intros [| c2 s2] acc1 acc2; cbn; try done.
  - by intros _ [= ->] [= ->].
  - intros [= Hlen].
    destruct (digitValue c1) as [d1 |] eqn:E1; [| done].
    destruct (digitValue c2) as [d2 |] eqn:E2; [| done].
    intros H1 H2.
    destruct (IH s2 _ _ Hlen H1 H2) as [Hacc ->].
    pose proof (digitValue_lt _ _ E1). pose proof (digitValue_lt _ _ E2).
    assert (d1 = d2) as -> by lia.
    split; [lia |]. f_equal. by apply (digitValue_inj c1 c2 d2).
Qed.

(** A key other than [0] that starts with a digit other than zero is read
    as a plain decimal numeral. *)
Lemma arrayIndex_nonzero_head (c : ascii) (rest : string) :
  c ≠ "0"%char →
  arrayIndex (String c rest)
  = match decimalValue 0 (String c rest) with
    | Some n => if (n <? 4294967295)%N then Some n else None
    | None => None
    end.
Proof.
  intros Hc.
  destruct c as [[] [] [] [] [] [] [] []]; try reflexivity.
  by destruct Hc.
Qed.

(** What it means for a key to be the array index [n]. *)
Lemma arrayIndex_Some (key : string) (n : N) :
  arrayIndex key = Some n →
  (key = "0" ∧ n = 0%N)
  ∨ ∃ c rest d,
      key = String c rest ∧ digitValue c = Some d ∧ (1 ≤ d)%N
      ∧ decimalValue d rest = Some n.
Proof.
  destruct key as [| c rest]; [done |].
  destruct (decide (c = "0"%char)) as [-> | Hc].
  - destruct rest; cbn; [| done]. intros [= <-]. by left.
  - rewrite arrayIndex_nonzero_head by done. cbn [decimalValue].
    destruct (digitValue c) as [d |] eqn:Ed; [| done].
    change (10 * 0 + d)%N with d.
    destruct (decimalValue d rest) as [v |] eqn:Ev; [| done].
    destruct (v <? 4294967295)%N; [| done].
    intros [= <-]. right. exists c, rest, d.
    repeat split; [done | | done].
    destruct (decide (d = 0%N)) as [-> | ?]; [| lia].
    by apply digitValue_zero in Ed.
Qed.

(** Two keys with the same array index are the same key. *)
Lemma arrayIndex_inj (key1 key2 : string) (n : N) :
  arrayIndex key1 = Some n → arrayIndex key2 = Some n → key1 = key2.
Proof.
  intros H1 H2.
  apply arrayIndex_Some in H1 as [[-> ->] | (c1 & r1 & d1 & -> & Ed1 & Hd1 & Hv1)];
  apply arrayIndex_Some in H2 as [[-> Hn] | (c2 & r2 & d2 & -> & Ed2 & Hd2 & Hv2)];
    try done.
  - apply decimalValue_bounds in Hv2.
    assert (10 ^ N.of_nat (String.length r2) ≠ 0)%N by (apply N.pow_nonzero; lia).
    nia.
  - subst n. apply decimalValue_bounds in Hv1.
    assert (10 ^ N.of_nat (String.length r1) ≠ 0)%N by (apply N.pow_nonzero; lia).
    nia.
  - pose proof (decimalValue_bounds _ _ _ Hv1) as [Hlo1 Hhi1].
    pose proof (decimalValue_bounds _ _ _ Hv2) as [Hlo2 Hhi2].
    pose proof (digitValue_lt _ _ Ed1). pose proof (digitValue_lt _ _ Ed2).
    assert (String.length r1 = String.length r2) as Hlen.
    { destruct (lt_eq_lt_dec (String.length r1) (String.length r2)) as [[Hlt | ?] | Hlt];
        [exfalso | done | exfalso].
      - assert (10 ^ N.of_nat (S (String.length r1)) ≤ 10 ^ N.of_nat (String.length r2))%N
          as Hpow by (apply N.pow_le_mono_r; lia).
        rewrite Nat2N.inj_succ, N.pow_succ_r' in Hpow. nia.
      - assert (10 ^ N.of_nat (S (String.length r2)) ≤ 10 ^ N.of_nat (String.length r1))%N
          as Hpow by (apply N.pow_le_mono_r; lia).
        rewrite Nat2N.inj_succ, N.pow_succ_r' in Hpow. nia. }
    destruct (decimalValue_inj r1 r2 d1 d2 n Hlen Hv1 Hv2) as [-> ->].
    f_equal. by apply (digitValue_inj c1 c2 d2).
Qed.

(** *** What the enumeration depends on *)

Lemma lookup_unique_key (object : PropertyRecord) (key val1 val2 : string) :
  NoDup object.*1 → (key, val1) ∈ object → (key, val2) ∈ object → val1 = val2.
Proof.
  induction object as [| [k v] object IH]; cbn; [by intros _ ?%elem_of_nil |].
  intros [Hnotin Hnodup]%NoDup_cons.
  rewrite !elem_of_cons. intros [H1 | H1] [H2 | H2].
  - congruence.
  - exfalso. apply Hnotin. apply list_elem_of_fmap. exists (key, val2).
    split; [cbn; congruence | done].
  - exfalso. apply Hnotin. apply list_elem_of_fmap. exists (key, val1).
    split; [cbn; congruence | done].
  - by apply IH.
Qed.

Lemma filter_Forall_id {A} (P : A → Prop) `{∀ x, Decision (P x)} (l : list A) :
  Forall P l → filter P l = l.
Proof.
  induction 1 as [| x l Hx _ IH]; [done |].
  by rewrite filter_cons_True, IH.
Qed.

Lemma filter_Forall_not {A} (P : A → Prop) `{∀ x, Decision (P x)} (l : list A) :
  Forall P l → filter (λ x, ¬ P x) l = [].
Proof.
  induction 1 as [| x l Hx _ IH]; [done |].
  rewrite filter_cons_False; [done | by intros Hn].
Qed.

(** With one property per key, the enumeration depends on the set of
    properties and on the order of the keys that are not array indices,
    and on nothing else. *)
Lemma Object_entries_canonical (object reordered : PropertyRecord) :
  NoDup object.*1 →
  object ≡ₚ reordered →
  filter (λ entry, ¬ isIndexKey entry) object
  = filter (λ entry, ¬ isIndexKey entry) reordered →
  Object_entries object = Object_entries reordered.
Proof.
  intros Hnodup Hperm Hnamed. unfold Object_entries. rewrite Hnamed. f_equal.
  apply (StronglySorted_unique_strong indexOrder).
  - intros [k1 v1] [k2 v2] H1 H2 Hle Hge.
    rewrite merge_sort_Permutation in H1, H2.
    apply list_elem_of_filter in H1 as [[n1 Hn1] H1].
    apply list_elem_of_filter in H2 as [[n2 Hn2] H2].
    rewrite <- Hperm in H2.
    unfold indexOrder, indexOf in Hle, Hge. cbn in *.
    rewrite Hn1, Hn2 in Hle, Hge. cbn in Hle, Hge.
    assert (n1 = n2) as -> by lia.
    assert (k1 = k2) as -> by (by apply (arrayIndex_inj k1 k2 n2)).
    f_equal. by apply (lookup_unique_key object k2).
  - apply Object_entries_index_sorted.
  - apply Object_entries_index_sorted.
  - by rewrite !merge_sort_Permutation, Hperm.
Qed.

(** X8.  For a record with one property per key, the order in which the
    array-index keys were inserted does not reach the emitted text: two
    records with the same properties and the same order of the other keys
    give the same schema text. *)
Theorem generateZodObjectSchema_index_insertion_order_irrelevant
    (object reordered : PropertyRecord) :
  NoDup object.*1 →
  object ≡ₚ reordered →
  filter (λ entry, ¬ isIndexKey entry) object
  = filter (λ entry, ¬ isIndexKey entry) reordered →
  generateZodObjectSchema object = generateZodObjectSchema reordered.
Proof.
  intros Hnodup Hperm Hnamed. unfold generateZodObjectSchema.
  by rewrite (Object_entries_canonical object reordered).
Qed.

(** Status codes and one ordinary key, inserted in two different orders. *)
Lemma generateZodObjectSchema_index_insertion_order_irrelevant_sample :
  NoDup [("404", "z.string()"); ("name", "z.string()"); ("200", "z.number()")].*1
  ∧ [("404", "z.string()"); ("name", "z.string()"); ("200", "z.number()")]
    ≡ₚ [("200", "z.number()"); ("name", "z.string()"); ("404", "z.string()")]
  ∧ filter (λ entry, ¬ isIndexKey entry)
      [("404", "z.string()"); ("name", "z.string()"); ("200", "z.number()")]
    = filter (λ entry, ¬ isIndexKey entry)
        [("200", "z.number()"); ("name", "z.string()"); ("404", "z.string()")]
  ∧ generateZodObjectSchema
      [("404", "z.string()"); ("name", "z.string()"); ("200", "z.number()")]
    = generateZodObjectSchema
        [("200", "z.number()"); ("name", "z.string()"); ("404", "z.string()")].
Proof.
  assert (NoDup [("404", "z.string()"); ("name", "z.string()"); ("200", "z.number()")].*1)
    as Hnodup by by_evaluation.
  assert ([("404", "z.string()"); ("name", "z.string()"); ("200", "z.number()")]
          ≡ₚ [("200", "z.number()"); ("name", "z.string()"); ("404", "z.string()")])
    as Hperm by apply (Permutation_rev [_; _; _]).
  assert (filter (λ entry, ¬ isIndexKey entry)
            [("404", "z.string()"); ("name", "z.string()"); ("200", "z.number()")]
          = filter (λ entry, ¬ isIndexKey entry)
              [("200", "z.number()"); ("name", "z.string()"); ("404", "z.string()")])
    as Hnamed by reflexivity.
  split; [exact Hnodup |]. split; [exact Hperm |]. split; [exact Hnamed |].
  exact (generateZodObjectSchema_index_insertion_order_irrelevant _ _ Hnodup Hperm Hnamed).
Defined.

Lemma Object_entries_named_part (object : PropertyRecord) :
  filter (λ entry, ¬ isIndexKey entry) (Object_entries object)
  = filter (λ entry, ¬ isIndexKey entry) object.
Proof.
  unfold Object_entries. rewrite filter_app.
  rewrite (filter_Forall_not isIndexKey).
  - cbn. apply filter_Forall_id. apply Forall_forall.
    by intros entry [? _]%list_elem_of_filter.
  - apply Forall_forall. intros entry.
    rewrite merge_sort_Permutation. by intros [? _]%list_elem_of_filter.
Qed.

(** X9.  Enumerating is idempotent on a record with one property per key:
    the record rebuilt from its own entries, in their order, is enumerated
    in that same order, and the builder emits for it the text it emits for
    the original. *)
Theorem generateZodObjectSchema_of_entries (object : PropertyRecord) :
  NoDup object.*1 →
  Object_entries (Object_entries object) = Object_entries object
  ∧ generateZodObjectSchema (Object_entries object) = generateZodObjectSchema object.
Proof.
  intros Hnodup.
  assert (Object_entries object = Object_entries (Object_entries object)) as H.
  { apply Object_entries_canonical; [done | |].
    - symmetry. apply Object_entries_Permutation.
    - symmetry. apply Object_entries_named_part. }
  split; [done |].
  unfold generateZodObjectSchema. by rewrite <- H.
Qed.

(** The status codes of a response map and a default. *)
Lemma generateZodObjectSchema_of_entries_sample :
  NoDup [("404", "z.string()"); ("default", "z.any()"); ("200", "z.number()")].*1
  ∧ Object_entries
      (Object_entries
         [("404", "z.string()"); ("default", "z.any()"); ("200", "z.number()")])
    = Object_entries
        [("404", "z.string()"); ("default", "z.any()"); ("200", "z.number()")]
  ∧ generateZodObjectSchema
      (Object_entries
         [("404", "z.string()"); ("default", "z.any()"); ("200", "z.number()")])
    = generateZodObjectSchema
        [("404", "z.string()"); ("default", "z.any()"); ("200", "z.number()")].
Proof.
  assert (NoDup [("404", "z.string()"); ("default", "z.any()"); ("200", "z.number()")].*1)
    as Hnodup by by_evaluation.
  split; [exact Hnodup |].
  exact (generateZodObjectSchema_of_entries _ Hnodup).
Defined.

(** X10.  A property whose name is not an array index, added last to a
    record, is emitted last: the pairs of the record keep their places in
    the text and the new pair follows them. *)
Theorem generateZodObjectSchema_append_named (object : PropertyRecord) (key val : string) :
  arrayIndex key = None →
  Object_entries (object ++ [(key, val)]) = (Object_entries object ++ [(key, val)])%list
  ∧ generateZodObjectSchema (object ++ [(key, val)])
    = "z.object({"
      +:+ String.concat ","
            ((propertyText <$> Object_entries object) ++ [key +:+ ":" +:+ val])
      +:+ "})".
Proof.
  intros Hkey.
  assert (¬ isIndexKey (key, val)) as Hnamed.
  { unfold isIndexKey. cbn. rewrite Hkey. by intros [? ?]. }
  assert (Object_entries (object ++ [(key, val)])
          = (Object_entries object ++ [(key, val)])%list) as H.
  { unfold Object_entries. rewrite !filter_app.
    rewrite (filter_cons_False isIndexKey) by done.
    rewrite (filter_cons_True (λ entry, ¬ isIndexKey entry)) by done.
    rewrite !filter_nil, app_nil_r. by rewrite <- app_assoc. }
  split; [done |].
  unfold generateZodObjectSchema. by rewrite H, fmap_app.
Qed.

(** A name added after a status code. *)
Lemma generateZodObjectSchema_append_named_sample :
  arrayIndex "name" = None
  ∧ Object_entries ([("200", "z.number()")] ++ [("name", "z.string()")])
    = [("200", "z.number()"); ("name", "z.string()")]
  ∧ generateZodObjectSchema ([("200", "z.number()")] ++ [("name", "z.string()")])
    = "z.object({200:z.number(),name:z.string()})".
Proof.
  split; [reflexivity |].
  exact (generateZodObjectSchema_append_named [("200", "z.number()")] "name" "z.string()"
           eq_refl).
Defined.


(** ** The coercion wrapper is used for numeric query parameters only *)

Lemma turn_coercion_irrelevant {Schema : Type}
    (schemaType : Schema → option string) (generateZodSchema : Schema → string)
    (wrapper1 wrapper2 : string → string → string)
    (run : Outcome) (param : Parameters Schema) :
  coerced schemaType param = false →
  turn schemaType generateZodSchema wrapper1 run param
  = turn schemaType generateZodSchema wrapper2 run param.
Proof.
  intros H. destruct run as [acc | acc]; [| done].
  unfold turn, reducer, zodSchema. by rewrite H.
Qed.

(** X11.  The coercion wrapper reaches the result only through descriptors
    at the query location with a number or integer schema: for a list
    without such a descriptor, the result is the same whatever the wrapper
    is. *)
Theorem generateParamsObject_coercion_irrelevant {Schema : Type}
    (schemaType : Schema → option string) (generateZodSchema : Schema → string)
    (wrapper1 wrapper2 : string → string → string)
    (parameters : list (Parameters Schema)) :
  Forall (λ param, coerced schemaType param = false) parameters →
  generateParamsObject schemaType generateZodSchema wrapper1 parameters
  = generateParamsObject schemaType generateZodSchema wrapper2 parameters.
Proof.
  intros H. unfold generateParamsObject. generalize (Returns []).
  induction H as [| param parameters Hparam _ IH]; intros run; [done |].
  cbn [foldl]. rewrite (turn_coercion_irrelevant _ _ wrapper1 wrapper2) by done.
  apply IH.
Qed.

(** A path parameter and a query string parameter, classified with the
    sample wrapper and with a wrapper that discards the schema. *)
Lemma generateParamsObject_coercion_irrelevant_sample :
  Forall (λ param, coerced Sample.schemaType param = false)
    [Sample.userId; Sample.idInQuery]
  ∧ generateParamsObject Sample.schemaType Sample.generateZodSchema
      Sample.generateZodCoerce [Sample.userId; Sample.idInQuery]
    = generateParamsObject Sample.schemaType Sample.generateZodSchema
        (λ source _, source) [Sample.userId; Sample.idInQuery].
Proof.
  assert (Forall (λ param, coerced Sample.schemaType param = false)
            [Sample.userId; Sample.idInQuery]) as H
    by (repeat constructor).
  split; [exact H |].
  exact (generateParamsObject_coercion_irrelevant
           Sample.schemaType Sample.generateZodSchema
           Sample.generateZodCoerce (λ source _, source)
           [Sample.userId; Sample.idInQuery] H).
Defined.
